(** * media-controller: keyboard control of a media element

    A shallow embedding of [MediaController] (one TypeScript class and the
    function [getDefaults]) together with the small part of the DOM that
    the class talks to: event targets with their listener lists, keyboard
    events with their three suppression flags, the document's active
    element and selector lookup, and a media element's [currentTime],
    [volume] and [paused], with the exceptions of their setters.

    JavaScript numbers are IEEE 754 binary64 values; they are modelled by
    Rocq's primitive floats, whose [add] and [sub] are the same operations
    and whose decimal literals are rounded the same way. *)

From Stdlib Require Import PrimFloat Bool String List.
From stdpp Require Import gmap strings list.

Set Warnings "-inexact-float".
Local Open Scope string_scope.

(** ** Configuration (lines 1-51 of the source) *)

Definition CSSSelector := string.
Definition Second := float.
Definition Percent := float.

(** Objects of the host are identified by a reference; two references are
    the same object exactly when they are equal. *)
Definition ref := nat.

Record IKeyMask (T : Type) := mkKeyMask {
  onNone : T;
  onShift : T;
  onCtrl : T;
  onShiftCtrl : T
}.
Arguments mkKeyMask {T}.
Arguments onNone {T}.
Arguments onShift {T}.
Arguments onCtrl {T}.
Arguments onShiftCtrl {T}.

(** A DOM keyboard event carries the key and the modifier flags. *)
Record KeyboardEvent := mkKeyboardEvent {
  key : string;
  ctrlKey : bool;
  metaKey : bool;
  shiftKey : bool
}.

(** [Pick<KeyboardEvent, "shiftKey" | "ctrlKey">]. *)
Module Mask.
Record t := mk { shiftKey : bool; ctrlKey : bool }.
End Mask.

Module FocusKey.
Record t := mk { key : string; mask : Mask.t }.
End FocusKey.
Abbreviation IFocusKey := FocusKey.t.

Record IMediaControllerOptions := mkOptions {
  focusKey : IFocusKey;
  progress : IKeyMask Second;
  volume : IKeyMask Percent
}.

Definition getDefaults : IMediaControllerOptions :=
  {| focusKey :=
       {| FocusKey.key := "e";
          FocusKey.mask := {| Mask.shiftKey := false; Mask.ctrlKey := true |} |};
     progress :=
       {| onNone := 10%float; onShift := 1%float;
          onCtrl := 30%float; onShiftCtrl := 60%float |};
     volume :=
       {| onNone := 0.1%float; onShift := 0.01%float;
          onCtrl := 0.25%float; onShiftCtrl := 0.5%float |} |}.

(** ** The controller object

    The fields [scope], [target] and [options] are assigned once in the
    constructor and never changed.  [cid] stands for the identity of the
    instance: the two arrow functions [onScopeKeydown] and [onMediaKeydown]
    are created per instance, so listeners of two controllers are different
    functions even when the controllers agree on every field. *)
Record MediaController := mkController {
  cid : nat;
  scope : ref;
  target : ref;
  options : IMediaControllerOptions
}.

(** ** The host: events, event targets, document *)

Inductive EventKind :=
  | Keyboard (k : KeyboardEvent)   (* event instanceof KeyboardEvent *)
  | OtherEvent.

(** The three flags are the DOM's canceled flag, stop immediate propagation
    flag and stop propagation flag. *)
Record Event := mkEvent {
  ev_type : string;
  ev_kind : EventKind;
  defaultPrevented : bool;
  immediatePropagationStopped : bool;
  propagationStopped : bool
}.

Definition preventDefault (e : Event) : Event :=
  {| ev_type := ev_type e; ev_kind := ev_kind e;
     defaultPrevented := true;
     immediatePropagationStopped := immediatePropagationStopped e;
     propagationStopped := propagationStopped e |}.

Definition stopImmediatePropagation (e : Event) : Event :=
  {| ev_type := ev_type e; ev_kind := ev_kind e;
     defaultPrevented := defaultPrevented e;
     immediatePropagationStopped := true;
     propagationStopped := true |}.

Definition stopPropagation (e : Event) : Event :=
  {| ev_type := ev_type e; ev_kind := ev_kind e;
     defaultPrevented := defaultPrevented e;
     immediatePropagationStopped := immediatePropagationStopped e;
     propagationStopped := true |}.

(** An event none of whose flags is set. *)
Definition fresh_event (ty : string) (k : EventKind) : Event :=
  {| ev_type := ty; ev_kind := k; defaultPrevented := false;
     immediatePropagationStopped := false; propagationStopped := false |}.

Definition keydown (k : KeyboardEvent) : Event := fresh_event "keydown" (Keyboard k).

(** A listener callback is one of the two arrow functions of one
    controller instance. *)
Inductive handler := OnScopeKeydown | OnMediaKeydown.

Record callback := mkCallback {
  cb_owner : MediaController;
  cb_handler : handler
}.

Definition handler_eqb (a b : handler) : bool :=
  match a, b with
  | OnScopeKeydown, OnScopeKeydown => true
  | OnMediaKeydown, OnMediaKeydown => true
  | _, _ => false
  end.

(** Function identity: same instance, same arrow function. *)
Definition same_callback (a b : callback) : bool :=
  Nat.eqb (cid (cb_owner a)) (cid (cb_owner b))
  && handler_eqb (cb_handler a) (cb_handler b).

Record listener := mkListener {
  l_type : string;
  l_callback : callback
}.

Definition same_listener (ty : string) (cb : callback) (l : listener) : bool :=
  String.eqb (l_type l) ty && same_callback (l_callback l) cb.

Module HTMLMediaElement.
Record t := mk { currentTime : float; volume : float; paused : bool }.
End HTMLMediaElement.

(** An object of the host: every object is an event target; it may carry
    the property [__mediaController]; a media element has its state. *)
Record node := mkNode {
  listeners : list listener;
  __mediaController : option MediaController;
  media : option HTMLMediaElement.t
}.

Record world := mkWorld {
  heap : gmap ref node;
  activeElement : option ref;            (* window.document.activeElement *)
  querySelector : string -> option ref;  (* document.querySelector *)
  console : list string;                 (* console.warn, oldest first *)
  next_cid : nat                         (* instances created so far *)
}.

Definition set_heap (h : gmap ref node) (w : world) : world :=
  {| heap := h; activeElement := activeElement w;
     querySelector := querySelector w; console := console w;
     next_cid := next_cid w |}.

Definition update_node (r : ref) (f : node -> node) (w : world) : world :=
  set_heap (alter f r (heap w)) w.

(** *** EventTarget *)

Definition node_add (ty : string) (cb : callback) (n : node) : node :=
  {| listeners :=
       if existsb (same_listener ty cb) (listeners n)
       then listeners n
       else listeners n ++ [mkListener ty cb];
     __mediaController := __mediaController n;
     media := media n |}.

Definition node_remove (ty : string) (cb : callback) (n : node) : node :=
  {| listeners := List.filter (fun l => negb (same_listener ty cb l)) (listeners n);
     __mediaController := __mediaController n;
     media := media n |}.

Definition addEventListener (r : ref) (ty : string) (cb : callback) : world -> world :=
  update_node r (node_add ty cb).

Definition removeEventListener (r : ref) (ty : string) (cb : callback) : world -> world :=
  update_node r (node_remove ty cb).

(** *** The property [__mediaController] of a scope *)

Definition node_set_controller (c : option MediaController) (n : node) : node :=
  {| listeners := listeners n; __mediaController := c; media := media n |}.

Definition get_controller (r : ref) (w : world) : option MediaController :=
  heap w !! r ≫= __mediaController.

Definition set_controller (r : ref) (c : MediaController) : world -> world :=
  update_node r (node_set_controller (Some c)).

Definition delete_controller (r : ref) : world -> world :=
  update_node r (node_set_controller None).

(** *** Focus, console, media element *)

Definition focus (r : ref) (w : world) : world :=
  {| heap := heap w; activeElement := Some r;
     querySelector := querySelector w; console := console w;
     next_cid := next_cid w |}.

Definition warn (msg : string) (w : world) : world :=
  {| heap := heap w; activeElement := activeElement w;
     querySelector := querySelector w; console := console w ++ [msg];
     next_cid := next_cid w |}.

Definition node_update_media (f : HTMLMediaElement.t -> HTMLMediaElement.t) (n : node) : node :=
  {| listeners := listeners n; __mediaController := __mediaController n;
     media := f <$> media n |}.

Definition update_media (r : ref) (f : HTMLMediaElement.t -> HTMLMediaElement.t) : world -> world :=
  update_node r (node_update_media f).

Definition get_media (r : ref) (w : world) : option HTMLMediaElement.t :=
  heap w !! r ≫= media.

Definition set_currentTime (x : float) (m : HTMLMediaElement.t) : HTMLMediaElement.t :=
  {| HTMLMediaElement.currentTime := x;
     HTMLMediaElement.volume := HTMLMediaElement.volume m;
     HTMLMediaElement.paused := HTMLMediaElement.paused m |}.

Definition set_volume (x : float) (m : HTMLMediaElement.t) : HTMLMediaElement.t :=
  {| HTMLMediaElement.currentTime := HTMLMediaElement.currentTime m;
     HTMLMediaElement.volume := x;
     HTMLMediaElement.paused := HTMLMediaElement.paused m |}.

Definition set_paused (b : bool) (m : HTMLMediaElement.t) : HTMLMediaElement.t :=
  {| HTMLMediaElement.currentTime := HTMLMediaElement.currentTime m;
     HTMLMediaElement.volume := HTMLMediaElement.volume m;
     HTMLMediaElement.paused := b |}.

(** [play()] clears the element's paused attribute, [pause()] sets it. *)
Definition play (r : ref) : world -> world := update_media r (set_paused false).
Definition pause (r : ref) : world -> world := update_media r (set_paused true).

(** *** Completions

    A call returns a value or throws; an exception is kept by its name
    (for the host's exceptions) or its message. *)
Inductive completion (A : Type) :=
  | Return (a : A)
  | Throw (message : string).
Arguments Return {A}.
Arguments Throw {A}.

(** *** Assignment to [currentTime] and [volume]

    Both attributes are declared [double]: the binding refuses a value
    that is not finite (a NaN or an infinity) with a TypeError.  The
    setter of [volume] refuses a value outside the range from 0 to 1 with
    an IndexSizeError.  A refused assignment leaves the element as it
    was.  An accepted value is what the attribute returns from then on;
    the seek that an assignment to [currentTime] starts, and which brings
    the position into the media's range, runs after the listener has
    returned. *)
Definition assign_currentTime (x : float) (m : HTMLMediaElement.t)
  : completion HTMLMediaElement.t :=
  if PrimFloat.is_finite x then Return (set_currentTime x m)
  else Throw "TypeError".

Definition assign_volume (x : float) (m : HTMLMediaElement.t)
  : completion HTMLMediaElement.t :=
  if negb (PrimFloat.is_finite x) then Throw "TypeError"
  else if PrimFloat.leb 0 x && PrimFloat.leb x 1 then Return (set_volume x m)
  else Throw "IndexSizeError".

(** [object.attribute = value] for the media element [r], where [setter]
    is the attribute's setter applied to the value. *)
Definition assign (r : ref)
    (setter : HTMLMediaElement.t -> completion HTMLMediaElement.t) (w : world)
  : completion unit * world :=
  match get_media r w with
  | Some m =>
      match setter m with
      | Return m' => (Return tt, update_media r (fun _ => m') w)
      | Throw msg => (Throw msg, w)
      end
  | None => (Return tt, w)
  end.

(** What a call of a listener leaves: its completion, the world and the
    event. *)
Definition completion_of (r : completion unit * world * Event) : completion unit :=
  fst (fst r).
Definition world_of (r : completion unit * world * Event) : world := snd (fst r).
Definition event_of (r : completion unit * world * Event) : Event := snd r.

(** ** The class [MediaController] (lines 53-185 of the source) *)

Definition getTimeDelta (this : MediaController) (e : KeyboardEvent) : float :=
  let ctrl := ctrlKey e || metaKey e in
  let shift := shiftKey e in
  if shift && ctrl then onShiftCtrl (progress (options this))
  else if shift then onShift (progress (options this))
  else if ctrl then onCtrl (progress (options this))
  else onNone (progress (options this)).

Definition getVolumeDelta (this : MediaController) (e : KeyboardEvent) : float :=
  let ctrl := ctrlKey e || metaKey e in
  let shift := shiftKey e in
  if shift && ctrl then onShiftCtrl (volume (options this))
  else if shift then onShift (volume (options this))
  else if ctrl then onCtrl (volume (options this))
  else onNone (volume (options this)).

(** The three calls made on a handled event. *)
Definition suppress (e : Event) : Event :=
  stopPropagation (stopImmediatePropagation (preventDefault e)).

Definition onScopeKeydown (this : MediaController) (event : Event) (w : world)
  : world * Event :=
  match ev_kind event with
  | OtherEvent => (w, event)
  | Keyboard k =>
      let ctrl := ctrlKey k || metaKey k in
      let shift := shiftKey k in
      if String.eqb (key k) (FocusKey.key (focusKey (options this)))
         && Bool.eqb ctrl (Mask.ctrlKey (FocusKey.mask (focusKey (options this))))
         && Bool.eqb shift (Mask.shiftKey (FocusKey.mask (focusKey (options this))))
      then (focus (target this) w, suppress event)
      else (w, event)
  end.

(** A case of the switch that ends with [acted = true]: the assignment
    first; an exception leaves the switch and the function. *)
Definition then_acted (r : completion unit * world) : completion bool * world :=
  match r with
  | (Return _, w) => (Return true, w)
  | (Throw msg, w) => (Throw msg, w)
  end.

Definition onMediaKeydown (this : MediaController) (event : Event) (w : world)
  : completion unit * world * Event :=
  match ev_kind event with
  | OtherEvent => (Return tt, w, event)
  | Keyboard k =>
      if negb (bool_decide (activeElement w = Some (target this)))
      then (Return tt, w, event)
      else
        (* the switch: the value of [acted] after it, or the exception *)
        let switch : completion bool * world :=
          if String.eqb (key k) "ArrowLeft" then
            then_acted (assign (target this)
              (fun m => assign_currentTime
                 (PrimFloat.sub (HTMLMediaElement.currentTime m) (getTimeDelta this k)) m) w)
          else if String.eqb (key k) "ArrowRight" then
            then_acted (assign (target this)
              (fun m => assign_currentTime
                 (PrimFloat.add (HTMLMediaElement.currentTime m) (getTimeDelta this k)) m) w)
          else if String.eqb (key k) "ArrowUp" then
            then_acted (assign (target this)
              (fun m => assign_volume
                 (PrimFloat.add (HTMLMediaElement.volume m) (getVolumeDelta this k)) m) w)
          else if String.eqb (key k) "ArrowDown" then
            then_acted (assign (target this)
              (fun m => assign_volume
                 (PrimFloat.sub (HTMLMediaElement.volume m) (getVolumeDelta this k)) m) w)
          else if String.eqb (key k) " " then
            (Return true,
             match get_media (target this) w with
             | Some m =>
                 if HTMLMediaElement.paused m then play (target this) w
                 else pause (target this) w
             | None => w
             end)
          else (Return false, w)
        in
        match switch with
        | (Throw msg, w') => (Throw msg, w', event)
        | (Return acted, w') =>
            if acted then (Return tt, w', suppress event)
            else (Return tt, w', event)
        end
  end.

Definition dispose (this : MediaController) (w : world) : world :=
  let w := removeEventListener (scope this) "keydown" (mkCallback this OnMediaKeydown) w in
  let w := removeEventListener (target this) "keydown" (mkCallback this OnMediaKeydown) w in
  delete_controller (scope this) w.

(** The three steps of [dispose] as they act on the single object [r]
    (see [dispose_lookup]). *)
Definition dispose_node (this : MediaController) (r : ref) (n : node) : node :=
  let n :=
    if decide (scope this = r)
    then node_remove "keydown" (mkCallback this OnMediaKeydown) n else n in
  let n :=
    if decide (target this = r)
    then node_remove "keydown" (mkCallback this OnMediaKeydown) n else n in
  if decide (scope this = r) then node_set_controller None n else n.

(** The second argument of the constructor: an element or a selector. *)
Inductive selector :=
  | Element (t : ref)
  | Selector (s : CSSSelector).

Definition alloc_controller (w : world) : world :=
  {| heap := heap w; activeElement := activeElement w;
     querySelector := querySelector w; console := console w;
     next_cid := S (next_cid w) |}.

Definition constructor (scope : ref) (sel : selector)
    (opts : option IMediaControllerOptions) (w : world)
  : completion MediaController * world :=
  let found :=
    match sel with
    | Selector s =>
        match querySelector w s with
        | Some t => Return t
        | None => Throw (String.append "Cannot find element with selector: " s)
        end
    | Element t => Return t
    end in
  match found with
  | Throw msg => (Throw msg, w)
  | Return target =>
      let this :=
        {| cid := next_cid w; scope := scope; target := target;
           options := default getDefaults opts |} in
      let w := alloc_controller w in
      let w := addEventListener scope "keydown" (mkCallback this OnScopeKeydown) w in
      let w := addEventListener target "keydown" (mkCallback this OnMediaKeydown) w in
      let w :=
        match get_controller scope w with
        | Some old => dispose old (warn "Overwriting existing media controller" w)
        | None => w
        end in
      (Return this, set_controller scope this w)
  end.

(** ** Delivery of an event to the listeners of one object

    The listeners of the object are called in the order in which they were
    added; one that sets the stop immediate propagation flag ends the
    round; one that throws does not; an event whose stop propagation
    flag is set is not delivered. *)

Definition invoke (cb : callback) (e : Event) (w : world) : world * Event :=
  match cb_handler cb with
  | OnScopeKeydown => onScopeKeydown (cb_owner cb) e w
  | OnMediaKeydown =>
      (* an exception of a listener is reported by the host; the round goes on *)
      let r := onMediaKeydown (cb_owner cb) e w in (world_of r, event_of r)
  end.

Fixpoint run_listeners (ls : list listener) (e : Event) (w : world) : world * Event :=
  match ls with
  | [] => (w, e)
  | l :: ls' =>
      if immediatePropagationStopped e then (w, e)
      else if String.eqb (l_type l) (ev_type e) then
        let '(w', e') := invoke (l_callback l) e w in
        run_listeners ls' e' w'
      else run_listeners ls' e w
  end.

Definition deliver (r : ref) (e : Event) (w : world) : world * Event :=
  if propagationStopped e then (w, e)
  else
    match heap w !! r with
    | Some n => run_listeners (listeners n) e w
    | None => (w, e)
    end.

(** ** Reading of the specification *)

(** The four-way table lookup: one entry for each combination of shift
    and ctrl, where ctrl stands for [ctrlKey] or [metaKey]. *)
Definition resolveMagnitude {T : Type} (table : IKeyMask T) (e : KeyboardEvent) : T :=
  match shiftKey e, ctrlKey e || metaKey e with
  | true, true => onShiftCtrl table
  | true, false => onShift table
  | false, true => onCtrl table
  | false, false => onNone table
  end.

(** The focus shortcut: key and both modifier flags as configured. *)
Definition matchesFocusShortcut (k : KeyboardEvent) (f : IFocusKey) : Prop :=
  key k = FocusKey.key f
  ∧ (ctrlKey k || metaKey k) = Mask.ctrlKey (FocusKey.mask f)
  ∧ shiftKey k = Mask.shiftKey (FocusKey.mask f).

(** The world [w] in which the media element [r], so far the object [n],
    has the state [m]; nothing else differs. *)
Definition with_media (r : ref) (n : node) (m : HTMLMediaElement.t) (w : world) : world :=
  set_heap (<[r := mkNode (listeners n) (__mediaController n) (Some m)]> (heap w)) w.



(** Suppression: the default action is prevented and propagation is
    stopped, also to the remaining listeners of the same object. *)
Definition is_suppressed (e : Event) : Prop :=
  defaultPrevented e = true
  ∧ immediatePropagationStopped e = true
  ∧ propagationStopped e = true.

(** ** A page used in the examples

    Object 0 is the document, objects 1 and 2 are two video elements;
    the selector "video" finds the first of them, no other selector
    finds anything. *)

Definition video (t v : float) (p : bool) : node :=
  mkNode [] None (Some (HTMLMediaElement.mk t v p)).

Definition page : world :=
  {| heap := <[0 := mkNode [] None None]>
             (<[1 := video 100 0.5 true]>
             (<[2 := video 0 1 false]> ∅));
     activeElement := None;
     querySelector := fun s => if String.eqb s "video" then Some 1 else None;
     console := [];
     next_cid := 0 |}.

(** The controller that [new MediaController(document, "video")] creates
    on [page], and the one created next for the second video. *)
Definition first_controller : MediaController :=
  {| cid := 0; scope := 0; target := 1; options := getDefaults |}.

Definition second_controller : MediaController :=
  {| cid := 1; scope := 0; target := 2; options := getDefaults |}.

Definition page_bound : world := snd (constructor 0 (Selector "video") None page).

Definition page_rebound : world := snd (constructor 0 (Element 2) None page_bound).

(** Ctrl+E, the default focus shortcut. *)
Definition ctrl_e : KeyboardEvent :=
  {| key := "e"; ctrlKey := true; metaKey := false; shiftKey := false |}.

(** ** The constructor step by step

    The names below cut the body of [constructor] into its steps, so that
    statements about a successful construction can name the intermediate
    worlds (see [constructor_inv]). *)

(** The element the second argument stands for, if any. *)
Definition resolve_target (sel : selector) (w : world) : option ref :=
  match sel with
  | Element t => Some t
  | Selector s => querySelector w s
  end.

(** The instance under construction. *)
Definition new_controller (sc t : ref) (opts : option IMediaControllerOptions)
    (w : world) : MediaController :=
  {| cid := next_cid w; scope := sc; target := t;
     options := default getDefaults opts |}.

(** The world after the two calls of [addEventListener]. *)
Definition listening (this : MediaController) (w : world) : world :=
  addEventListener (target this) "keydown" (mkCallback this OnMediaKeydown)
    (addEventListener (scope this) "keydown" (mkCallback this OnScopeKeydown)
       (alloc_controller w)).

(** The world after the check of the scope's [__mediaController]. *)
Definition overwriting (this : MediaController) (w : world) : world :=
  match get_controller (scope this) (listening this w) with
  | Some old => dispose old (warn "Overwriting existing media controller" (listening this w))
  | None => listening this w
  end.

(** Every [__mediaController] is a controller of the object that carries
    it, and an instance created before now. *)
Definition controllers_at_home (w : world) : Prop :=
  ∀ (r : ref) (c : MediaController),
    get_controller r w = Some c → scope c = r ∧ cid c < next_cid w.

(** The event [e] as a keyboard event with the keys [k]. *)
Definition with_keys (k : KeyboardEvent) (e : Event) : Event :=
  {| ev_type := ev_type e; ev_kind := Keyboard k;
     defaultPrevented := defaultPrevented e;
     immediatePropagationStopped := immediatePropagationStopped e;
     propagationStopped := propagationStopped e |}.

(** The same keys with the meta key reported as the ctrl key. *)
Definition meta_as_ctrl (k : KeyboardEvent) : KeyboardEvent :=
  {| key := key k; ctrlKey := ctrlKey k || metaKey k; metaKey := false;
     shiftKey := shiftKey k |}.

(** The object [n] has the function [cb] registered for events of type [ty]. *)
Definition registered (ty : string) (cb : callback) (n : node) : bool :=
  existsb (same_listener ty cb) (listeners n).

(** The object [r] exists and has [cb] registered for [ty]. *)
Definition listens (r : ref) (ty : string) (cb : callback) (w : world) : Prop :=
  ∃ n, heap w !! r = Some n ∧ registered ty cb n = true.

(** * Properties *)

(** ** Magnitudes *)

Lemma getTimeDelta_resolve (this : MediaController) (e : KeyboardEvent) :
  getTimeDelta this e = resolveMagnitude (progress (options this)) e.
Proof.
  unfold getTimeDelta, resolveMagnitude.
  destruct (shiftKey e), (ctrlKey e || metaKey e); reflexivity.
Qed.

Lemma getVolumeDelta_resolve (this : MediaController) (e : KeyboardEvent) :
  getVolumeDelta this e = resolveMagnitude (volume (options this)) e.
Proof.
  unfold getVolumeDelta, resolveMagnitude.
  destruct (shiftKey e), (ctrlKey e || metaKey e); reflexivity.
Qed.

(** C3. For every keyboard event and both tables, the magnitude is the
    entry of the table for the event's combination of shift and
    ctrl-or-meta: shift with ctrl gives [onShiftCtrl], shift alone
    [onShift], ctrl alone [onCtrl], neither [onNone]. *)
Theorem magnitude_is_four_way_lookup (this : MediaController) (e : KeyboardEvent) :
  getTimeDelta this e = resolveMagnitude (progress (options this)) e
  ∧ getVolumeDelta this e = resolveMagnitude (volume (options this)) e.
Proof. split; [apply getTimeDelta_resolve | apply getVolumeDelta_resolve]. Qed.

(** With the default tables, shift together with ctrl (or meta) gives 60
    seconds and 0.5, neither the shift-only nor the ctrl-only entry. *)
Example shift_ctrl_defaults :
  let e := {| key := "ArrowRight"; ctrlKey := false; metaKey := true; shiftKey := true |} in
  getTimeDelta first_controller e = 60%float
  ∧ getVolumeDelta first_controller e = 0.5%float.
Proof. split; reflexivity. Qed.

(** ** Defaults *)

(** C8. The default configuration: focus key "e" with ctrl required and
    shift excluded; seek steps 10, 1, 30, 60; volume steps 0.1, 0.01,
    0.25, 0.5 (for none, shift, ctrl, shift+ctrl). *)
Theorem default_configuration :
  FocusKey.key (focusKey getDefaults) = "e"
  ∧ Mask.ctrlKey (FocusKey.mask (focusKey getDefaults)) = true
  ∧ Mask.shiftKey (FocusKey.mask (focusKey getDefaults)) = false
  ∧ progress getDefaults = mkKeyMask 10%float 1%float 30%float 60%float
  ∧ volume getDefaults = mkKeyMask 0.1%float 0.01%float 0.25%float 0.5%float.
Proof. repeat split. Qed.

(** ** The scope listener *)


Lemma matchesFocusShortcut_test (k : KeyboardEvent) (f : IFocusKey) :
  matchesFocusShortcut k f ↔
  String.eqb (key k) (FocusKey.key f)
  && Bool.eqb (ctrlKey k || metaKey k) (Mask.ctrlKey (FocusKey.mask f))
  && Bool.eqb (shiftKey k) (Mask.shiftKey (FocusKey.mask f)) = true.
Proof.
  unfold matchesFocusShortcut.
  rewrite !andb_true_iff, String.eqb_eq, !Bool.eqb_true_iff. tauto.
Qed.

(** C4. On a keyboard event the scope listener focuses the target and
    suppresses the event when the key, the ctrl-or-meta flag and the shift
    flag all equal the configured ones; when any of the three differs it
    changes neither the world nor the event. *)
Theorem focus_shortcut_exact_match
    (this : MediaController) (event : Event) (k : KeyboardEvent) (w : world) :
  ev_kind event = Keyboard k →
  (matchesFocusShortcut k (focusKey (options this)) →
     onScopeKeydown this event w = (focus (target this) w, suppress event)
     ∧ activeElement (focus (target this) w) = Some (target this)
     ∧ is_suppressed (suppress event))
  ∧ (¬ matchesFocusShortcut k (focusKey (options this)) →
     onScopeKeydown this event w = (w, event)).
Proof.
  intros Hk. unfold onScopeKeydown. rewrite Hk.
  pose proof (matchesFocusShortcut_test k (focusKey (options this))) as Ht.
  cbv zeta.
  destruct (String.eqb _ _ && Bool.eqb _ _ && Bool.eqb _ _).
  - split; [intros _ | intros Hn; exfalso; apply Hn, Ht; reflexivity].
    repeat split.
  - split; [intros Hm; apply Ht in Hm; discriminate | reflexivity].
Qed.

Lemma focus_shortcut_exact_match_witness :
  (matchesFocusShortcut ctrl_e (focusKey getDefaults) →
     onScopeKeydown first_controller (keydown ctrl_e) page_bound
       = (focus 1 page_bound, suppress (keydown ctrl_e))
     ∧ activeElement (focus 1 page_bound) = Some 1
     ∧ is_suppressed (suppress (keydown ctrl_e)))
  ∧ (¬ matchesFocusShortcut ctrl_e (focusKey getDefaults) →
     onScopeKeydown first_controller (keydown ctrl_e) page_bound
       = (page_bound, keydown ctrl_e)).
Proof.
  apply (focus_shortcut_exact_match first_controller (keydown ctrl_e) ctrl_e page_bound).
  reflexivity.
Defined.

(** Each single mismatch is enough: a different key, a different
    ctrl-or-meta flag, or a different shift flag. *)
Lemma focus_shortcut_single_mismatch
    (this : MediaController) (k : KeyboardEvent) (w : world) (ty : string) :
  key k ≠ FocusKey.key (focusKey (options this))
  ∨ (ctrlKey k || metaKey k) ≠ Mask.ctrlKey (FocusKey.mask (focusKey (options this)))
  ∨ shiftKey k ≠ Mask.shiftKey (FocusKey.mask (focusKey (options this))) →
  onScopeKeydown this (fresh_event ty (Keyboard k)) w = (w, fresh_event ty (Keyboard k)).
Proof.
  intros H.
  unfold onScopeKeydown; simpl.
  pose proof (matchesFocusShortcut_test k (focusKey (options this))) as Ht.
  destruct (String.eqb _ _ && Bool.eqb _ _ && Bool.eqb _ _); [|reflexivity].
  destruct Ht as [_ Ht]. destruct (Ht eq_refl) as (H1 & H2 & H3).
  destruct H as [H | [H | H]]; contradiction.
Qed.

(** ** Events that are not keyboard events *)

(** C10. Both listeners return at once on an event that is not a keyboard
    event: the world and the event are as before, and nothing is thrown. *)
Theorem non_keyboard_event_ignored (this : MediaController) (event : Event) (w : world) :
  ev_kind event = OtherEvent →
  onScopeKeydown this event w = (w, event)
  ∧ onMediaKeydown this event w = (Return tt, w, event).
Proof.
  intros H. unfold onScopeKeydown, onMediaKeydown. rewrite H. split; reflexivity.
Qed.

Lemma non_keyboard_event_ignored_witness :
  onScopeKeydown first_controller (fresh_event "keydown" OtherEvent) (focus 1 page_bound)
    = (focus 1 page_bound, fresh_event "keydown" OtherEvent)
  ∧ onMediaKeydown first_controller (fresh_event "keydown" OtherEvent) (focus 1 page_bound)
    = (Return tt, focus 1 page_bound, fresh_event "keydown" OtherEvent).
Proof.
  apply (non_keyboard_event_ignored first_controller
           (fresh_event "keydown" OtherEvent) (focus 1 page_bound)).
  reflexivity.
Defined.

(** ** The target listener *)

(** C7. While the target is not the document's active element, the target
    listener returns with the world and the event as they were, whatever
    the event. *)
Theorem unfocused_target_untouched (this : MediaController) (event : Event) (w : world) :
  activeElement w ≠ Some (target this) →
  onMediaKeydown this event w = (Return tt, w, event).
Proof.
  intros H. unfold onMediaKeydown.
  destruct (ev_kind event); [|reflexivity].
  rewrite bool_decide_eq_false_2 by assumption. reflexivity.
Qed.

Lemma unfocused_target_untouched_witness :
  onMediaKeydown first_controller
    (keydown {| key := "ArrowUp"; ctrlKey := true; metaKey := false; shiftKey := true |})
    (focus 2 page_bound)
  = (Return tt, focus 2 page_bound,
     keydown {| key := "ArrowUp"; ctrlKey := true; metaKey := false; shiftKey := true |}).
Proof.
  apply (unfocused_target_untouched first_controller).
  simpl. discriminate.
Defined.

Lemma update_media_with_media
    (r : ref) (f : HTMLMediaElement.t → HTMLMediaElement.t)
    (n : node) (m : HTMLMediaElement.t) (w : world) :
  heap w !! r = Some n → media n = Some m →
  update_media r f w = with_media r n (f m) w.
Proof.
  intros Hn Hm. unfold update_media, update_node, with_media.
  rewrite (alter_alt_Some _ _ _ _ Hn).
  unfold node_update_media. rewrite Hm. reflexivity.
Qed.







(** A step that is not finite is refused as well: with an infinite seek
    step ArrowRight ends with the TypeError of the binding, and neither
    the position nor the event is touched. *)
Example arrow_right_infinite_step :
  let this :=
    {| cid := 0; scope := 0; target := 1;
       options :=
         {| focusKey := focusKey getDefaults;
            progress := mkKeyMask PrimFloat.infinity 1%float 30%float 60%float;
            volume := volume getDefaults |} |} in
  let right :=
    keydown {| key := "ArrowRight"; ctrlKey := false; metaKey := false;
               shiftKey := false |} in
  onMediaKeydown this right (focus 1 page_bound) =
    (Throw "TypeError", focus 1 page_bound, right).
Proof. reflexivity. Qed.

(** The end-to-end cases of the specification, on the example page with
    the first video focused: ArrowDown with ctrl and shift lowers the
    volume by 0.5, and the space key starts the paused video and pauses
    it again, suppressing the event each time. *)
Example arrow_down_ctrl_shift :
  let e := keydown {| key := "ArrowDown"; ctrlKey := true; metaKey := false; shiftKey := true |} in
  let '(w, e') := deliver 1 e (focus 1 page_bound) in
  get_media 1 w = Some (HTMLMediaElement.mk 100 0 true) ∧ e' = suppress e.
Proof. vm_compute. split; reflexivity. Qed.

Example space_toggles :
  let e := keydown {| key := " "; ctrlKey := false; metaKey := false; shiftKey := false |} in
  let '(w1, e1) := deliver 1 e (focus 1 page_bound) in
  let '(w2, e2) := deliver 1 e w1 in
  (HTMLMediaElement.paused <$> get_media 1 (focus 1 page_bound)) = Some true
  ∧ (HTMLMediaElement.paused <$> get_media 1 w1) = Some false
  ∧ (HTMLMediaElement.paused <$> get_media 1 w2) = Some true
  ∧ e1 = suppress e ∧ e2 = suppress e.
Proof. vm_compute. repeat split; reflexivity. Qed.

(** ** Construction *)

(** C5. When the selector finds no element the constructor throws an
    error whose message ends with the selector, and the world is as it
    was: no listener has been added and no scope refers to a controller
    that did not before. *)
Theorem constructor_selector_not_found
    (sc : ref) (s : CSSSelector) (opts : option IMediaControllerOptions) (w : world) :
  querySelector w s = None →
  constructor sc (Selector s) opts w =
    (Throw (String.append "Cannot find element with selector: " s), w).
Proof. intros H. unfold constructor. rewrite H. reflexivity. Qed.

Lemma constructor_selector_not_found_witness :
  constructor 0 (Selector "audio") None page =
    (Throw "Cannot find element with selector: audio", page).
Proof.
  apply (constructor_selector_not_found 0 "audio" None page).
  reflexivity.
Defined.

(** With an element, or a selector that finds one, the constructor
    returns a controller for it. *)
Lemma constructor_returns (sc : ref) (sel : selector)
    (opts : option IMediaControllerOptions) (w : world) (t : ref) :
  match sel with Element x => Some x | Selector s => querySelector w s end = Some t →
  fst (constructor sc sel opts w) =
    Return {| cid := next_cid w; scope := sc; target := t;
              options := default getDefaults opts |}.
Proof.
  intros H. unfold constructor.
  destruct sel as [x | s]; [injection H as -> | rewrite H]; reflexivity.
Qed.

(** ** Disposal *)

Section Dispose.

Variable this : MediaController.

Let media_cb : callback := mkCallback this OnMediaKeydown.
Let scope_cb : callback := mkCallback this OnScopeKeydown.

Lemma filter_twice {A : Type} (p : A → bool) (l : list A) :
  List.filter p (List.filter p l) = List.filter p l.
Proof.
  induction l as [|x l IH]; simpl; [reflexivity|].
  destruct (p x) eqn:Hp; simpl; rewrite ?Hp, IH; reflexivity.
Qed.

Lemma node_remove_twice (ty : string) (cb : callback) (n : node) :
  node_remove ty cb (node_remove ty cb n) = node_remove ty cb n.
Proof. unfold node_remove; simpl. rewrite filter_twice. reflexivity. Qed.

Lemma dispose_lookup (w : world) (r : ref) :
  heap (dispose this w) !! r = dispose_node this r <$> heap w !! r.
Proof.
  unfold dispose, delete_controller, removeEventListener, update_node, dispose_node.
  simpl. fold media_cb.
  destruct (decide (scope this = r)) as [Hs|Hs], (decide (target this = r)) as [Ht|Ht];
    rewrite ?Hs, ?Ht;
    repeat first [rewrite lookup_alter_eq | rewrite lookup_alter_ne by assumption];
    destruct (heap w !! r); reflexivity.
Qed.

Lemma dispose_frame (w : world) :
  activeElement (dispose this w) = activeElement w
  ∧ querySelector (dispose this w) = querySelector w
  ∧ console (dispose this w) = console w
  ∧ next_cid (dispose this w) = next_cid w.
Proof. repeat split. Qed.

Lemma dispose_node_twice (r : ref) (n : node) :
  dispose_node this r (dispose_node this r n) = dispose_node this r n.
Proof.
  unfold dispose_node.
  destruct (decide (scope this = r)), (decide (target this = r)); try reflexivity.
  - unfold node_set_controller, node_remove; simpl. rewrite !filter_twice. reflexivity.
  - unfold node_set_controller, node_remove; simpl. rewrite !filter_twice. reflexivity.
  - apply node_remove_twice.
Qed.

Lemma world_eq (w1 w2 : world) :
  heap w1 = heap w2 → activeElement w1 = activeElement w2 →
  querySelector w1 = querySelector w2 → console w1 = console w2 →
  next_cid w1 = next_cid w2 → w1 = w2.
Proof. destruct w1, w2; simpl; intros; subst; reflexivity. Qed.

Lemma dispose_twice (w : world) : dispose this (dispose this w) = dispose this w.
Proof.
  apply world_eq; try reflexivity.
  apply map_eq; intros r. rewrite !dispose_lookup.
  destruct (heap w !! r); simpl; [|reflexivity].
  rewrite dispose_node_twice. reflexivity.
Qed.

Lemma dispose_node_listeners (r : ref) (n : node) :
  listeners (dispose_node this r n) =
    if decide (scope this = r ∨ target this = r)
    then List.filter (fun l => negb (same_listener "keydown" media_cb l)) (listeners n)
    else listeners n.
Proof.
  unfold dispose_node; cbv zeta.
  repeat case_decide; simpl; rewrite ?filter_twice; try reflexivity; tauto.
Qed.

Lemma dispose_node_controller (r : ref) (n : node) :
  __mediaController (dispose_node this r n) =
    if decide (scope this = r) then None else __mediaController n.
Proof.
  unfold dispose_node; cbv zeta. repeat case_decide; reflexivity.
Qed.

(** After [dispose] the scope has no [__mediaController]. *)
Lemma dispose_deletes_controller (w : world) :
  get_controller (scope this) (dispose this w) = None.
Proof.
  unfold get_controller. rewrite dispose_lookup.
  destruct (heap w !! scope this); [|reflexivity]. simpl.
  rewrite dispose_node_controller. apply decide_True. reflexivity.
Qed.

(** After [dispose] the target does not have the instance's
    [onMediaKeydown] among its keydown listeners. *)
Lemma dispose_removes_target_listener (w : world) (n : node) (l : listener) :
  heap (dispose this w) !! target this = Some n →
  In l (listeners n) → same_listener "keydown" media_cb l = false.
Proof.
  rewrite dispose_lookup. destruct (heap w !! target this) as [n0|]; [|discriminate].
  simpl. intros [= <-]. rewrite dispose_node_listeners.
  rewrite decide_True by (right; reflexivity).
  rewrite filter_In. intros [_ H]. apply negb_true_iff in H. exact H.
Qed.

(** The instance's [onScopeKeydown] is removed by neither of the two
    calls of [removeEventListener]: both name [onMediaKeydown]. *)
Lemma dispose_keeps_scope_listener (w : world) (n : node) (ty : string) :
  heap w !! scope this = Some n →
  In (mkListener ty scope_cb) (listeners n) →
  ∃ n', heap (dispose this w) !! scope this = Some n'
        ∧ In (mkListener ty scope_cb) (listeners n').
Proof.
  intros Hn Hin. rewrite dispose_lookup, Hn. simpl.
  eexists; split; [reflexivity|].
  rewrite dispose_node_listeners, decide_True by (left; reflexivity).
  apply filter_In; split; [assumption|].
  unfold same_listener, same_callback; simpl. rewrite !andb_false_r. reflexivity.
Qed.

End Dispose.

(** C9. A call of [dispose] after a first one changes nothing, however
    often it is repeated; [dispose] is a total function of the world, so
    no call of it fails. *)
Theorem dispose_idempotent (this : MediaController) (w : world) (calls : nat) :
  Nat.iter calls (dispose this) (dispose this w) = dispose this w.
Proof.
  induction calls as [|calls IH]; simpl; [reflexivity|].
  rewrite IH. apply dispose_twice.
Qed.

(** The theorem above is about calls that follow one another.  [dispose]
    deletes whatever controller the scope refers to: called on the first
    controller after the second has taken over the document, it removes
    the reference to the second. *)
Example dispose_after_rebinding :
  get_controller 0 page_rebound = Some second_controller
  ∧ get_controller 0 (dispose first_controller page_rebound) = None.
Proof. vm_compute. split; reflexivity. Qed.

(** ** The scope listener outlives disposal *)

(** C1, evaluated on the example page.  [new MediaController(document,
    "video")] followed by [dispose()]: the document no longer refers to
    the controller and the video has no listener left, but the document
    still has the controller's [onScopeKeydown], and Ctrl+E delivered to
    the document moves the focus to the video and is suppressed. *)
Theorem dispose_leaves_scope_listener :
  fst (constructor 0 (Selector "video") None page) = Return first_controller
  ∧ get_controller 0 (dispose first_controller page_bound) = None
  ∧ (listeners <$> heap (dispose first_controller page_bound) !! 1) = Some []
  ∧ (listeners <$> heap (dispose first_controller page_bound) !! 0) =
      Some [mkListener "keydown" (mkCallback first_controller OnScopeKeydown)]
  ∧ activeElement (dispose first_controller page_bound) = None
  ∧ deliver 0 (keydown ctrl_e) (dispose first_controller page_bound) =
      (focus 1 (dispose first_controller page_bound), suppress (keydown ctrl_e)).
Proof. vm_compute. repeat split; reflexivity. Qed.

(** C2, evaluated on the example page.  A second controller, for the
    second video, is constructed on the document that already has one.
    The warning is logged, the document refers to the second controller
    and the first video has lost its listener; but the document now has
    the [onScopeKeydown] of both controllers, the first one's first, and
    Ctrl+E delivered to the document focuses the first video: the first
    controller answers and stops the event before the second is called. *)
Theorem rebinding_keeps_first_scope_listener :
  fst (constructor 0 (Element 2) None page_bound) = Return second_controller
  ∧ console page_rebound = ["Overwriting existing media controller"]
  ∧ get_controller 0 page_rebound = Some second_controller
  ∧ (listeners <$> heap page_rebound !! 1) = Some []
  ∧ (listeners <$> heap page_rebound !! 2) =
      Some [mkListener "keydown" (mkCallback second_controller OnMediaKeydown)]
  ∧ (listeners <$> heap page_rebound !! 0) =
      Some [mkListener "keydown" (mkCallback first_controller OnScopeKeydown);
            mkListener "keydown" (mkCallback second_controller OnScopeKeydown)]
  ∧ deliver 0 (keydown ctrl_e) page_rebound =
      (focus 1 page_rebound, suppress (keydown ctrl_e)).
Proof. vm_compute. repeat split; reflexivity. Qed.

(** * Further properties of the class *)

(** ** Objects under [update_node] *)

Lemma update_node_lookup (r r' : ref) (f : node → node) (w : world) :
  heap (update_node r f w) !! r' =
    if decide (r = r') then f <$> heap w !! r else heap w !! r'.
Proof. unfold update_node; simpl. apply lookup_alter. Qed.

Lemma update_node_media (r r' : ref) (f : node → node) (w : world) :
  (∀ n, media (f n) = media n) →
  get_media r' (update_node r f w) = get_media r' w.
Proof.
  intros Hf. unfold get_media. rewrite update_node_lookup.
  destruct (decide (r = r')) as [->|]; [|reflexivity].
  destruct (heap w !! r'); simpl; [apply Hf | reflexivity].
Qed.

Lemma update_node_controller (r r' : ref) (f : node → node) (w : world) :
  (∀ n, __mediaController (f n) = __mediaController n) →
  get_controller r' (update_node r f w) = get_controller r' w.
Proof.
  intros Hf. unfold get_controller. rewrite update_node_lookup.
  destruct (decide (r = r')) as [->|]; [|reflexivity].
  destruct (heap w !! r'); simpl; [apply Hf | reflexivity].
Qed.

Lemma update_node_is_Some (r r' : ref) (f : node → node) (w : world) :
  is_Some (heap (update_node r f w) !! r') ↔ is_Some (heap w !! r').
Proof.
  rewrite update_node_lookup.
  destruct (decide (r = r')) as [->|]; [|reflexivity].
  rewrite fmap_is_Some. reflexivity.
Qed.

(** ** The constructor, step by step *)

Lemma constructor_resolved (sc : ref) (sel : selector)
    (opts : option IMediaControllerOptions) (w : world) (t : ref) :
  resolve_target sel w = Some t →
  constructor sc sel opts w =
    (Return (new_controller sc t opts w),
     set_controller sc (new_controller sc t opts w)
       (overwriting (new_controller sc t opts w) w)).
Proof.
  intros H. unfold constructor, resolve_target in *.
  destruct sel as [x | s]; [injection H as -> | rewrite H]; reflexivity.
Qed.

Lemma constructor_unresolved (sc : ref) (sel : selector)
    (opts : option IMediaControllerOptions) (w : world) :
  resolve_target sel w = None →
  ∃ s, sel = Selector s ∧ querySelector w s = None
       ∧ constructor sc sel opts w =
           (Throw (String.append "Cannot find element with selector: " s), w).
Proof.
  intros H. destruct sel as [x | s]; [discriminate|].
  exists s. simpl in H. unfold constructor. rewrite H. auto.
Qed.

Lemma constructor_inv (sc : ref) (sel : selector)
    (opts : option IMediaControllerOptions) (w w' : world) (this : MediaController) :
  constructor sc sel opts w = (Return this, w') →
  ∃ t, resolve_target sel w = Some t
       ∧ this = new_controller sc t opts w
       ∧ w' = set_controller sc this (overwriting this w).
Proof.
  intros H. destruct (resolve_target sel w) as [t|] eqn:Ht.
  - rewrite (constructor_resolved _ _ _ _ _ Ht) in H.
    injection H as <- <-. eauto.
  - destruct (constructor_unresolved sc sel opts w Ht) as (s & _ & _ & Hc).
    rewrite Hc in H. discriminate.
Qed.

(** X1. The constructor throws exactly when it is given a selector string
    for which [querySelector] finds no element; given an element it
    always returns. *)
Theorem constructor_throws_iff (sc : ref) (sel : selector)
    (opts : option IMediaControllerOptions) (w : world) :
  (∃ msg, fst (constructor sc sel opts w) = Throw msg)
  ↔ (∃ s, sel = Selector s ∧ querySelector w s = None).
Proof.
  split.
  - intros [msg H]. destruct (resolve_target sel w) as [t|] eqn:Ht.
    + rewrite (constructor_resolved _ _ _ _ _ Ht) in H. discriminate.
    + destruct (constructor_unresolved sc sel opts w Ht) as (s & Hs & Hq & _). eauto.
  - intros (s & -> & Hq). eexists. unfold constructor. rewrite Hq. reflexivity.
Qed.

Lemma dispose_is_Some (c : MediaController) (w : world) (r : ref) :
  is_Some (heap (dispose c w) !! r) ↔ is_Some (heap w !! r).
Proof. rewrite dispose_lookup, fmap_is_Some. reflexivity. Qed.

Lemma dispose_node_media (c : MediaController) (r : ref) (n : node) :
  media (dispose_node c r n) = media n.
Proof. unfold dispose_node; cbv zeta. repeat case_decide; reflexivity. Qed.

Lemma dispose_media (c : MediaController) (w : world) (r : ref) :
  get_media r (dispose c w) = get_media r w.
Proof.
  unfold get_media. rewrite dispose_lookup.
  destruct (heap w !! r); simpl; [apply dispose_node_media | reflexivity].
Qed.

Lemma dispose_controller_elsewhere (c : MediaController) (w : world) (r : ref) :
  scope c ≠ r → get_controller r (dispose c w) = get_controller r w.
Proof.
  intros Hne. unfold get_controller. rewrite dispose_lookup.
  destruct (heap w !! r); simpl; [|reflexivity].
  rewrite dispose_node_controller. apply decide_False. exact Hne.
Qed.

Section Listening.

Variable this : MediaController.
Variable w : world.

Lemma listening_is_Some (r : ref) :
  is_Some (heap (listening this w) !! r) ↔ is_Some (heap w !! r).
Proof.
  unfold listening, addEventListener. rewrite !update_node_is_Some. reflexivity.
Qed.

Lemma listening_controller (r : ref) :
  get_controller r (listening this w) = get_controller r w.
Proof.
  unfold listening, addEventListener.
  rewrite !update_node_controller by reflexivity. reflexivity.
Qed.

Lemma listening_media (r : ref) :
  get_media r (listening this w) = get_media r w.
Proof.
  unfold listening, addEventListener.
  rewrite !update_node_media by reflexivity. reflexivity.
Qed.

Lemma overwriting_is_Some (r : ref) :
  is_Some (heap (overwriting this w) !! r) ↔ is_Some (heap w !! r).
Proof.
  unfold overwriting. destruct (get_controller _ _).
  - rewrite dispose_is_Some. apply listening_is_Some.
  - apply listening_is_Some.
Qed.

Lemma overwriting_media (r : ref) :
  get_media r (overwriting this w) = get_media r w.
Proof.
  unfold overwriting. destruct (get_controller _ _).
  - rewrite dispose_media. apply listening_media.
  - apply listening_media.
Qed.

Lemma overwriting_console :
  console (overwriting this w) =
    match get_controller (scope this) w with
    | Some _ => (console w ++ ["Overwriting existing media controller"])%list
    | None => console w
    end.
Proof.
  unfold overwriting. rewrite listening_controller.
  destruct (get_controller _ _); reflexivity.
Qed.

Lemma set_controller_get (r : ref) (c : MediaController) (v : world) :
  is_Some (heap v !! r) → get_controller r (set_controller r c v) = Some c.
Proof.
  intros [n Hn]. unfold get_controller, set_controller.
  rewrite update_node_lookup, decide_True, Hn by reflexivity. reflexivity.
Qed.

Lemma set_controller_get_ne (r r' : ref) (c : MediaController) (v : world) :
  r ≠ r' → get_controller r' (set_controller r c v) = get_controller r' v.
Proof.
  intros Hne. unfold get_controller, set_controller.
  rewrite update_node_lookup, decide_False by exact Hne. reflexivity.
Qed.

End Listening.

(** X2. When the constructor returns, the scope's [__mediaController] is
    the returned controller, whatever the scope referred to before, and
    the controller's scope is the scope passed in. *)
Theorem constructor_takes_scope (sc : ref) (sel : selector)
    (opts : option IMediaControllerOptions) (w w' : world) (this : MediaController) :
  is_Some (heap w !! sc) →
  constructor sc sel opts w = (Return this, w') →
  get_controller sc w' = Some this ∧ scope this = sc.
Proof.
  intros Hsc H. apply constructor_inv in H as (t & _ & Hthis & ->).
  split; [|rewrite Hthis; reflexivity].
  apply set_controller_get. apply overwriting_is_Some. exact Hsc.
Qed.

Lemma page_has_document : is_Some (heap page !! 0).
Proof. eexists. reflexivity. Qed.

Lemma constructor_takes_scope_witness :
  get_controller 0 page_bound = Some first_controller ∧ scope first_controller = 0.
Proof.
  apply (constructor_takes_scope 0 (Selector "video") None page page_bound first_controller).
  - exact page_has_document.
  - reflexivity.
Defined.

(** X3. A successful construction logs the warning "Overwriting existing
    media controller" once when the scope already referred to a
    controller, and logs nothing otherwise. *)
Theorem constructor_warns_when_overwriting (sc : ref) (sel : selector)
    (opts : option IMediaControllerOptions) (w w' : world) (this : MediaController) :
  constructor sc sel opts w = (Return this, w') →
  console w' =
    match get_controller sc w with
    | Some _ => (console w ++ ["Overwriting existing media controller"])%list
    | None => console w
    end.
Proof.
  intros H. apply constructor_inv in H as (t & _ & Hthis & ->).
  unfold set_controller, update_node; simpl.
  rewrite overwriting_console, Hthis. reflexivity.
Qed.

Lemma constructor_warns_when_overwriting_witness :
  console page_rebound =
    match get_controller 0 page_bound with
    | Some _ => (console page_bound ++ ["Overwriting existing media controller"])%list
    | None => console page_bound
    end.
Proof.
  apply (constructor_warns_when_overwriting 0 (Element 2) None page_bound page_rebound
           second_controller).
  reflexivity.
Defined.

(** X4. Construction, failed or successful, changes no media element's
    [currentTime], [volume] or [paused], and leaves the document's active
    element and its selector lookup as they were. *)
Theorem constructor_keeps_media_and_focus (sc : ref) (sel : selector)
    (opts : option IMediaControllerOptions) (w : world) :
  activeElement (snd (constructor sc sel opts w)) = activeElement w
  ∧ querySelector (snd (constructor sc sel opts w)) = querySelector w
  ∧ ∀ r, get_media r (snd (constructor sc sel opts w)) = get_media r w.
Proof.
  destruct (resolve_target sel w) as [t|] eqn:Ht.
  - rewrite (constructor_resolved _ _ _ _ _ Ht). simpl.
    split_and!.
    + unfold overwriting. destruct (get_controller _ _); reflexivity.
    + unfold overwriting. destruct (get_controller _ _); reflexivity.
    + intros r. unfold set_controller.
      rewrite update_node_media by reflexivity. apply overwriting_media.
  - destruct (constructor_unresolved sc sel opts w Ht) as (s & _ & _ & ->).
    simpl. auto.
Qed.

(** ** Registered listeners *)

Lemma same_callback_trans (x a b : callback) :
  same_callback x a = true → same_callback x b = true → same_callback a b = true.
Proof.
  unfold same_callback. rewrite !andb_true_iff, !Nat.eqb_eq.
  intros [H1 H2] [H3 H4]. split; [congruence|].
  destruct (cb_handler x), (cb_handler a), (cb_handler b); simpl in *; congruence.
Qed.

Lemma same_callback_refl (a : callback) : same_callback a a = true.
Proof.
  unfold same_callback. rewrite Nat.eqb_refl. destruct (cb_handler a); reflexivity.
Qed.

Lemma registered_add (ty : string) (cb : callback) (n : node) :
  registered ty cb (node_add ty cb n) = true.
Proof.
  unfold registered, node_add; simpl.
  destruct (existsb _ (listeners n)) eqn:E; [exact E|].
  rewrite existsb_app; simpl. unfold same_listener at 2; simpl.
  rewrite String.eqb_refl, same_callback_refl. apply orb_true_r.
Qed.

Lemma registered_add_other (ty ty' : string) (cb cb' : callback) (n : node) :
  registered ty cb n = true → registered ty cb (node_add ty' cb' n) = true.
Proof.
  unfold registered, node_add; simpl. intros H.
  destruct (existsb (same_listener ty' cb') _); [exact H|].
  rewrite existsb_app, H. reflexivity.
Qed.

Lemma registered_add_inv (ty ty' : string) (cb cb' : callback) (n : node) :
  registered ty cb (node_add ty' cb' n) = true →
  registered ty cb n = true ∨ same_listener ty cb (mkListener ty' cb') = true.
Proof.
  unfold registered, node_add; simpl.
  destruct (existsb (same_listener ty' cb') _); [auto|].
  rewrite existsb_app, orb_true_iff; simpl. rewrite orb_false_r. auto.
Qed.

Lemma registered_remove (ty ty' : string) (cb cb' : callback) (n : node) :
  registered ty cb (node_remove ty' cb' n) = true → registered ty cb n = true.
Proof.
  unfold registered, node_remove; simpl. rewrite !existsb_exists.
  intros (l & Hin & Hl). apply filter_In in Hin as [Hin _]. eauto.
Qed.

Lemma registered_remove_other (ty ty' : string) (cb cb' : callback) (n : node) :
  same_callback cb cb' = false →
  registered ty cb n = true → registered ty cb (node_remove ty' cb' n) = true.
Proof.
  unfold registered, node_remove; simpl. rewrite !existsb_exists.
  intros Hne (l & Hin & Hl). exists l. split; [|exact Hl].
  apply filter_In. split; [exact Hin|].
  apply negb_true_iff. destruct (same_listener ty' cb' l) eqn:E; [|reflexivity].
  unfold same_listener in *. apply andb_true_iff in Hl as [_ Hl], E as [_ E].
  rewrite (same_callback_trans _ _ _ Hl E) in Hne. discriminate.
Qed.

Lemma registered_remove_same (ty : string) (cb : callback) (n : node) :
  registered ty cb (node_remove ty cb n) = false.
Proof.
  unfold registered, node_remove; simpl.
  apply not_true_is_false. rewrite existsb_exists.
  intros (l & Hin & Hl). apply filter_In in Hin as [_ Hin].
  rewrite Hl in Hin. discriminate.
Qed.

Lemma registered_dispose_node_eq (c : MediaController) (r : ref) (ty : string)
    (cb : callback) (n : node) :
  registered ty cb (dispose_node c r n) =
    if decide (scope c = r ∨ target c = r)
    then registered ty cb (node_remove "keydown" (mkCallback c OnMediaKeydown) n)
    else registered ty cb n.
Proof.
  unfold registered at 1. rewrite dispose_node_listeners.
  case_decide; reflexivity.
Qed.

Lemma registered_dispose_node (c : MediaController) (r : ref) (ty : string)
    (cb : callback) (n : node) :
  registered ty cb (dispose_node c r n) = true → registered ty cb n = true.
Proof.
  rewrite registered_dispose_node_eq. case_decide; [|auto].
  apply registered_remove.
Qed.

Lemma registered_dispose_node_other (c : MediaController) (r : ref) (ty : string)
    (cb : callback) (n : node) :
  same_callback cb (mkCallback c OnMediaKeydown) = false →
  registered ty cb n = true → registered ty cb (dispose_node c r n) = true.
Proof.
  intros Hne Hreg. rewrite registered_dispose_node_eq. case_decide; [|exact Hreg].
  apply registered_remove_other; assumption.
Qed.

Lemma registered_dispose_node_own (c : MediaController) (r : ref) (n : node) :
  scope c = r ∨ target c = r →
  registered "keydown" (mkCallback c OnMediaKeydown) (dispose_node c r n) = false.
Proof.
  intros Hr. rewrite registered_dispose_node_eq, decide_True by exact Hr.
  apply registered_remove_same.
Qed.

Lemma listens_update_node (r r' : ref) (ty : string) (cb : callback)
    (f : node → node) (w : world) :
  (∀ n, registered ty cb n = true → registered ty cb (f n) = true) →
  listens r ty cb w → listens r ty cb (update_node r' f w).
Proof.
  intros Hf (n & Hn & Hreg). unfold listens. rewrite update_node_lookup.
  destruct (decide (r' = r)) as [->|]; [|eauto].
  rewrite Hn. simpl. eauto.
Qed.

Lemma listens_add (r : ref) (ty : string) (cb : callback) (w : world) :
  is_Some (heap w !! r) → listens r ty cb (addEventListener r ty cb w).
Proof.
  intros [n Hn]. unfold listens, addEventListener.
  rewrite update_node_lookup, decide_True, Hn by reflexivity. simpl.
  eexists; split; [reflexivity | apply registered_add].
Qed.

Lemma listens_dispose_other (c : MediaController) (r : ref) (ty : string)
    (cb : callback) (w : world) :
  same_callback cb (mkCallback c OnMediaKeydown) = false →
  listens r ty cb w → listens r ty cb (dispose c w).
Proof.
  intros Hne (n & Hn & Hreg). unfold listens. rewrite dispose_lookup, Hn. simpl.
  eexists; split; [reflexivity|]. apply registered_dispose_node_other; assumption.
Qed.

Lemma listens_dispose_inv (c : MediaController) (r : ref) (ty : string)
    (cb : callback) (w : world) :
  listens r ty cb (dispose c w) → listens r ty cb w.
Proof.
  intros (n & Hn & Hreg). rewrite dispose_lookup in Hn.
  destruct (heap w !! r) as [n0|] eqn:E; [|discriminate].
  injection Hn as <-. exists n0. split; [exact E|].
  eapply registered_dispose_node; exact Hreg.
Qed.

Lemma listens_dispose_own (c : MediaController) (r : ref) (w : world) :
  scope c = r ∨ target c = r →
  ¬ listens r "keydown" (mkCallback c OnMediaKeydown) (dispose c w).
Proof.
  intros Hr (n & Hn & Hreg). rewrite dispose_lookup in Hn.
  destruct (heap w !! r) as [n0|]; [|discriminate].
  injection Hn as <-. rewrite registered_dispose_node_own in Hreg by exact Hr.
  discriminate.
Qed.

Lemma listens_set_controller (r r' : ref) (ty : string) (cb : callback)
    (c : MediaController) (w : world) :
  listens r ty cb (set_controller r' c w) ↔ listens r ty cb w.
Proof.
  unfold listens, set_controller. rewrite update_node_lookup.
  destruct (decide (r' = r)) as [->|]; [|reflexivity].
  destruct (heap w !! r) as [n|]; simpl.
  - split; intros (n' & [= <-] & H); eexists; split; try reflexivity; exact H.
  - split; intros (n' & Hn & _); discriminate.
Qed.

Lemma listens_listening_scope (this : MediaController) (w : world) :
  is_Some (heap w !! scope this) →
  listens (scope this) "keydown" (mkCallback this OnScopeKeydown) (listening this w).
Proof.
  intros Hsc. unfold listening.
  apply listens_update_node; [intros n; apply registered_add_other|].
  apply listens_add. exact Hsc.
Qed.

Lemma listens_listening_target (this : MediaController) (w : world) :
  is_Some (heap w !! target this) →
  listens (target this) "keydown" (mkCallback this OnMediaKeydown) (listening this w).
Proof.
  intros Ht. unfold listening. apply listens_add.
  unfold addEventListener. apply update_node_is_Some. exact Ht.
Qed.

(** X5. When the constructor returns, the scope has the new controller's
    [onScopeKeydown] and the target its [onMediaKeydown] registered for
    "keydown", also when a previous controller of the scope was disposed
    on the way. *)
Theorem constructor_registers_listeners (sc : ref) (sel : selector)
    (opts : option IMediaControllerOptions) (w w' : world) (this : MediaController) :
  constructor sc sel opts w = (Return this, w') →
  is_Some (heap w !! sc) →
  is_Some (heap w !! target this) →
  (∀ old, get_controller sc w = Some old → cid old ≠ next_cid w) →
  listens sc "keydown" (mkCallback this OnScopeKeydown) w'
  ∧ listens (target this) "keydown" (mkCallback this OnMediaKeydown) w'.
Proof.
  intros H Hsc Ht Hold. apply constructor_inv in H as (t & _ & Hthis & ->).
  assert (Hs : scope this = sc) by (rewrite Hthis; reflexivity).
  assert (Hc : cid this = next_cid w) by (rewrite Hthis; reflexivity).
  rewrite <- Hs in Hsc.
  pose proof (listens_listening_scope this w Hsc) as L1.
  pose proof (listens_listening_target this w Ht) as L2.
  rewrite !listens_set_controller. unfold overwriting.
  rewrite listening_controller, Hs.
  destruct (get_controller sc w) as [old|] eqn:E; [|rewrite <- Hs at 1; auto].
  split.
  - rewrite <- Hs. apply listens_dispose_other; [|exact L1].
    unfold same_callback; simpl. apply andb_false_r.
  - apply listens_dispose_other; [|exact L2].
    unfold same_callback; simpl. rewrite andb_true_r, Hc.
    apply Nat.eqb_neq. intros Heq. apply (Hold old eq_refl). symmetry. exact Heq.
Qed.

Lemma constructor_registers_listeners_witness :
  listens 0 "keydown" (mkCallback second_controller OnScopeKeydown) page_rebound
  ∧ listens (target second_controller) "keydown"
      (mkCallback second_controller OnMediaKeydown) page_rebound.
Proof.
  apply (constructor_registers_listeners 0 (Element 2) None page_bound page_rebound
           second_controller).
  - reflexivity.
  - eexists; reflexivity.
  - eexists; reflexivity.
  - intros old Hold. vm_compute in Hold. injection Hold as <-.
    intros E. vm_compute in E. discriminate E.
Defined.

(** X6. When a controller is constructed on a scope that refers to a
    previous controller, the previous controller's [onMediaKeydown] is
    afterwards registered neither on its target nor on its scope. *)
Theorem constructor_unregisters_previous_target (sc : ref) (sel : selector)
    (opts : option IMediaControllerOptions) (w w' : world)
    (this old : MediaController) :
  get_controller sc w = Some old →
  constructor sc sel opts w = (Return this, w') →
  ¬ listens (target old) "keydown" (mkCallback old OnMediaKeydown) w'
  ∧ ¬ listens (scope old) "keydown" (mkCallback old OnMediaKeydown) w'.
Proof.
  intros Hold H. apply constructor_inv in H as (t & _ & Hthis & ->).
  assert (Hs : scope this = sc) by (rewrite Hthis; reflexivity).
  rewrite !listens_set_controller. unfold overwriting.
  rewrite listening_controller, Hs, Hold.
  split; apply listens_dispose_own; auto.
Qed.

Lemma constructor_unregisters_previous_target_witness :
  ¬ listens (target first_controller) "keydown"
      (mkCallback first_controller OnMediaKeydown) page_rebound
  ∧ ¬ listens (scope first_controller) "keydown"
      (mkCallback first_controller OnMediaKeydown) page_rebound.
Proof.
  apply (constructor_unregisters_previous_target 0 (Element 2) None page_bound
           page_rebound second_controller first_controller); reflexivity.
Defined.

(** ** More on disposal *)

(** X7. After [dispose] the scope has no [__mediaController], whichever
    controller it referred to, and the controller's [onMediaKeydown] is
    registered for "keydown" neither on the target nor on the scope. *)
Theorem dispose_postcondition (this : MediaController) (w : world) :
  get_controller (scope this) (dispose this w) = None
  ∧ ¬ listens (target this) "keydown" (mkCallback this OnMediaKeydown) (dispose this w)
  ∧ ¬ listens (scope this) "keydown" (mkCallback this OnMediaKeydown) (dispose this w).
Proof.
  split_and!.
  - apply dispose_deletes_controller.
  - apply listens_dispose_own. auto.
  - apply listens_dispose_own. auto.
Qed.

(** X8. [dispose] changes nothing else: the active element, the console
    and every media state stay as they are; objects other than the scope
    and the target are untouched; no other object loses its
    [__mediaController]; no listener is added, and none is removed but the
    controller's own [onMediaKeydown]. *)
Theorem dispose_changes_nothing_else (this : MediaController) (w : world) :
  activeElement (dispose this w) = activeElement w
  ∧ console (dispose this w) = console w
  ∧ (∀ r, get_media r (dispose this w) = get_media r w)
  ∧ (∀ r, r ≠ scope this → r ≠ target this →
        heap (dispose this w) !! r = heap w !! r)
  ∧ (∀ r, r ≠ scope this →
        get_controller r (dispose this w) = get_controller r w)
  ∧ (∀ r ty cb, listens r ty cb (dispose this w) → listens r ty cb w)
  ∧ (∀ r ty cb, same_callback cb (mkCallback this OnMediaKeydown) = false →
        listens r ty cb w → listens r ty cb (dispose this w)).
Proof.
  split_and!; try reflexivity.
  - intros r. apply dispose_media.
  - intros r Hs Ht. rewrite dispose_lookup.
    destruct (heap w !! r) as [n|]; [|reflexivity]. simpl. f_equal.
    unfold dispose_node; cbv zeta. rewrite !decide_False by congruence. reflexivity.
  - intros r Hs. apply dispose_controller_elsewhere. congruence.
  - intros r ty cb. apply listens_dispose_inv.
  - intros r ty cb. apply listens_dispose_other.
Qed.

Lemma filter_none {A : Type} (p : A → bool) (l : list A) :
  existsb p l = false → List.filter (fun x => negb (p x)) l = l.
Proof.
  induction l as [|x l IH]; simpl; [reflexivity|].
  intros H. apply orb_false_iff in H as [Hx Hl].
  rewrite Hx; simpl. rewrite IH by exact Hl. reflexivity.
Qed.

Lemma node_eq (n1 n2 : node) :
  listeners n1 = listeners n2 → __mediaController n1 = __mediaController n2 →
  media n1 = media n2 → n1 = n2.
Proof. destruct n1, n2; simpl; intros; subst; reflexivity. Qed.

(** X9. [dispose] on a controller that is not bound changes nothing: when
    the scope has no [__mediaController] and the controller's
    [onMediaKeydown] is registered neither on the scope nor on the
    target, the world after [dispose] is the world before. *)
Theorem dispose_unbound_is_noop (this : MediaController) (w : world) :
  get_controller (scope this) w = None →
  ¬ listens (scope this) "keydown" (mkCallback this OnMediaKeydown) w →
  ¬ listens (target this) "keydown" (mkCallback this OnMediaKeydown) w →
  dispose this w = w.
Proof.
  intros Hc Hs Ht. apply world_eq; try reflexivity.
  apply map_eq; intros r. rewrite dispose_lookup.
  destruct (heap w !! r) as [n|] eqn:E; [|reflexivity]. simpl. f_equal.
  apply node_eq.
  - rewrite dispose_node_listeners. case_decide as Hr; [|reflexivity].
    apply filter_none. apply not_true_is_false. intros Hreg.
    destruct Hr as [<- | <-]; [apply Hs | apply Ht]; exists n; auto.
  - rewrite dispose_node_controller. case_decide as Hr; [|reflexivity].
    subst r. unfold get_controller in Hc. rewrite E in Hc. symmetry. exact Hc.
  - apply dispose_node_media.
Qed.

Lemma dispose_unbound_is_noop_witness : dispose first_controller page = page.
Proof.
  apply (dispose_unbound_is_noop first_controller page).
  - reflexivity.
  - intros (n & Hn & Hreg). vm_compute in Hn. injection Hn as <-.
    vm_compute in Hreg. discriminate Hreg.
  - intros (n & Hn & Hreg). vm_compute in Hn. injection Hn as <-.
    vm_compute in Hreg. discriminate Hreg.
Defined.

(** ** More on the two listeners *)

Lemma assign_cases
    (r : ref) (setter : HTMLMediaElement.t → completion HTMLMediaElement.t) (w : world) :
  assign r setter w = (Return tt, w)
  ∨ (∃ f, assign r setter w = (Return tt, update_media r f w))
  ∨ (∃ msg, assign r setter w = (Throw msg, w)).
Proof.
  unfold assign. destruct (get_media r w) as [m|]; [|auto].
  destruct (setter m); eauto.
Qed.

(** The three ways in which a call of the target listener ends: it
    returns with the event as it was and the world as it was; it returns
    with the event suppressed, and the world as it was or with the
    target's media state changed; it throws, with the world and the event
    as they were. *)
Lemma onMediaKeydown_cases (this : MediaController) (e : Event) (w : world) :
  onMediaKeydown this e w = (Return tt, w, e)
  ∨ (∃ w', onMediaKeydown this e w = (Return tt, w', suppress e)
           ∧ (w' = w ∨ ∃ f, w' = update_media (target this) f w))
  ∨ (∃ msg, onMediaKeydown this e w = (Throw msg, w, e)).
Proof.
  unfold onMediaKeydown.
  destruct (ev_kind e) as [k|]; [|auto].
  destruct (bool_decide _); cbn [negb]; [|auto].
  assert (Hassign : ∀ setter,
    let r := then_acted (assign (target this) setter w) in
    (∃ w', r = (Return true, w') ∧ (w' = w ∨ ∃ f, w' = update_media (target this) f w))
    ∨ (∃ msg, r = (Throw msg, w))).
  { intros setter.
    destruct (assign_cases (target this) setter w) as [H | [[f H] | [msg H]]];
      cbv zeta; rewrite H; simpl; eauto 7. }
  assert (Hend : ∀ sw : completion bool * world,
    (∃ w', sw = (Return true, w') ∧ (w' = w ∨ ∃ f, w' = update_media (target this) f w))
    ∨ (∃ msg, sw = (Throw msg, w)) →
    match sw with
    | (Throw msg, w') => (Throw msg, w', e)
    | (Return acted, w') =>
        if acted then (Return tt, w', suppress e) else (Return tt, w', e)
    end = (Return tt, w, e)
    ∨ (∃ w', match sw with
             | (Throw msg, w') => (Throw msg, w', e)
             | (Return acted, w') =>
                 if acted then (Return tt, w', suppress e) else (Return tt, w', e)
             end = (Return tt, w', suppress e)
             ∧ (w' = w ∨ ∃ f, w' = update_media (target this) f w))
    ∨ (∃ msg, match sw with
              | (Throw msg, w') => (Throw msg, w', e)
              | (Return acted, w') =>
                  if acted then (Return tt, w', suppress e) else (Return tt, w', e)
              end = (Throw msg, w, e))).
  { intros sw [(w' & -> & Hw') | (msg & ->)]; [right; left | right; right]; eauto. }
  destruct (String.eqb (key k) "ArrowLeft"); [apply Hend, Hassign|].
  destruct (String.eqb (key k) "ArrowRight"); [apply Hend, Hassign|].
  destruct (String.eqb (key k) "ArrowUp"); [apply Hend, Hassign|].
  destruct (String.eqb (key k) "ArrowDown"); [apply Hend, Hassign|].
  destruct (String.eqb (key k) " "); [|left; reflexivity].
  right; left. eexists; split; [reflexivity|].
  destruct (get_media (target this) w) as [m|]; [|auto].
  destruct (HTMLMediaElement.paused m); unfold play, pause; eauto.
Qed.

Lemma onMediaKeydown_world (this : MediaController) (e : Event) (w : world) :
  world_of (onMediaKeydown this e w) = w
  ∨ ∃ f, world_of (onMediaKeydown this e w) = update_media (target this) f w.
Proof.
  destruct (onMediaKeydown_cases this e w)
    as [-> | [(w' & -> & [-> | [f ->]]) | [msg ->]]]; simpl; eauto.
Qed.

Lemma listens_update_media (r r' : ref) (ty : string) (cb : callback)
    (f : HTMLMediaElement.t → HTMLMediaElement.t) (w : world) :
  listens r ty cb (update_media r' f w) ↔ listens r ty cb w.
Proof.
  unfold listens, update_media. rewrite update_node_lookup.
  destruct (decide (r' = r)) as [->|]; [|reflexivity].
  destruct (heap w !! r) as [n|]; simpl.
  - split; intros (n' & [= <-] & H); eexists; split; try reflexivity; exact H.
  - split; intros (n' & Hn & _); discriminate.
Qed.

(** X10. The scope listener changes nothing but the active element, and
    that only to the target: the objects, their listeners and media
    states, and the console stay as they are. *)
Theorem onScopeKeydown_changes_only_focus
    (this : MediaController) (e : Event) (w : world) :
  heap (fst (onScopeKeydown this e w)) = heap w
  ∧ console (fst (onScopeKeydown this e w)) = console w
  ∧ (activeElement (fst (onScopeKeydown this e w)) = activeElement w
     ∨ activeElement (fst (onScopeKeydown this e w)) = Some (target this)).
Proof.
  unfold onScopeKeydown. destruct (ev_kind e) as [k|]; [|auto].
  cbv zeta. destruct (String.eqb _ _ && Bool.eqb _ _ && Bool.eqb _ _); simpl; auto.
Qed.

(** X11. The target listener changes nothing but the media state of the
    target: it never moves the focus, writes to the console, adds or
    removes a listener, changes a [__mediaController], or touches
    another object. *)
Theorem onMediaKeydown_changes_only_target_media
    (this : MediaController) (e : Event) (w : world) :
  activeElement (world_of (onMediaKeydown this e w)) = activeElement w
  ∧ console (world_of (onMediaKeydown this e w)) = console w
  ∧ (∀ r, r ≠ target this →
        heap (world_of (onMediaKeydown this e w)) !! r = heap w !! r)
  ∧ (∀ r, get_controller r (world_of (onMediaKeydown this e w)) = get_controller r w)
  ∧ (∀ r ty cb, listens r ty cb (world_of (onMediaKeydown this e w))
                ↔ listens r ty cb w).
Proof.
  destruct (onMediaKeydown_world this e w) as [-> | [f ->]].
  - split_and!; reflexivity.
  - split_and!; try reflexivity.
    + intros r Hr. unfold update_media. rewrite update_node_lookup.
      apply decide_False. congruence.
    + intros r. unfold update_media. apply update_node_controller. reflexivity.
    + intros r ty cb. apply listens_update_media.
Qed.

(** X12. Neither listener changes anything without suppressing the
    event: each either ends with the world and the event as they were
    (the target listener by returning or by an exception of the media
    element), or returns the event with the default prevented and
    propagation stopped. *)
Theorem listeners_act_only_with_suppression
    (this : MediaController) (e : Event) (w : world) :
  (onScopeKeydown this e w = (w, e)
   ∨ snd (onScopeKeydown this e w) = suppress e)
  ∧ ((world_of (onMediaKeydown this e w) = w
      ∧ event_of (onMediaKeydown this e w) = e)
     ∨ (completion_of (onMediaKeydown this e w) = Return tt
        ∧ event_of (onMediaKeydown this e w) = suppress e)).
Proof.
  split.
  - unfold onScopeKeydown. destruct (ev_kind e) as [k|]; [|auto].
    cbv zeta. destruct (String.eqb _ _ && Bool.eqb _ _ && Bool.eqb _ _); simpl; auto.
  - destruct (onMediaKeydown_cases this e w)
      as [-> | [(w' & -> & _) | [msg ->]]]; simpl; auto.
Qed.

Lemma onMediaKeydown_space
    (this : MediaController) (e : Event) (k : KeyboardEvent)
    (w : world) (n : node) (m : HTMLMediaElement.t) :
  ev_kind e = Keyboard k → key k = " " →
  activeElement w = Some (target this) →
  heap w !! target this = Some n → media n = Some m →
  onMediaKeydown this e w =
    (Return tt,
     with_media (target this) n
       (HTMLMediaElement.mk (HTMLMediaElement.currentTime m) (HTMLMediaElement.volume m)
          (negb (HTMLMediaElement.paused m))) w,
     suppress e)
  ∧ with_media (target this) n
      (HTMLMediaElement.mk (HTMLMediaElement.currentTime m) (HTMLMediaElement.volume m)
         (negb (HTMLMediaElement.paused m))) w
    = (if HTMLMediaElement.paused m then play else pause) (target this) w.
Proof.
  intros Hk Hkey Ha Hn Hm.
  assert (Hw : with_media (target this) n
      (HTMLMediaElement.mk (HTMLMediaElement.currentTime m) (HTMLMediaElement.volume m)
         (negb (HTMLMediaElement.paused m))) w
    = (if HTMLMediaElement.paused m then play else pause) (target this) w).
  { destruct (HTMLMediaElement.paused m); unfold play, pause;
      rewrite (update_media_with_media _ _ n m w Hn Hm); reflexivity. }
  split; [|exact Hw]. rewrite Hw. unfold onMediaKeydown.
  rewrite Hk, Hkey, bool_decide_eq_true_2 by exact Ha.
  cbn [negb String.eqb Ascii.eqb Bool.eqb].
  unfold get_media. rewrite Hn. cbn [mbind option_bind]. rewrite Hm.
  destruct (HTMLMediaElement.paused m); reflexivity.
Qed.

(** X13. The space key toggles, and toggles back.  On the focused target
    the first press calls [play()] on a paused element and [pause()] on
    a playing one: [paused] is inverted, [currentTime] and [volume] are
    as before, and the event is suppressed.  A second press brings the
    world back to where it was. *)
Theorem space_twice_restores
    (this : MediaController) (e : Event) (k : KeyboardEvent)
    (w : world) (n : node) (m : HTMLMediaElement.t) :
  ev_kind e = Keyboard k → key k = " " →
  activeElement w = Some (target this) →
  heap w !! target this = Some n → media n = Some m →
  let once := onMediaKeydown this e w in
  let twice := onMediaKeydown this e (world_of once) in
  completion_of once = Return tt
  ∧ world_of once = (if HTMLMediaElement.paused m then play else pause) (target this) w
  ∧ get_media (target this) (world_of once) =
      Some (HTMLMediaElement.mk (HTMLMediaElement.currentTime m)
              (HTMLMediaElement.volume m) (negb (HTMLMediaElement.paused m)))
  ∧ event_of once = suppress e
  ∧ completion_of twice = Return tt
  ∧ world_of twice = w
  ∧ event_of twice = suppress e.
Proof.
  intros Hk Hkey Ha Hn Hm once twice. subst twice once.
  destruct (onMediaKeydown_space this e k w n m Hk Hkey Ha Hn Hm) as [H1 Hplay].
  rewrite H1. unfold world_of, completion_of, event_of; cbn [fst snd].
  set (m1 := HTMLMediaElement.mk (HTMLMediaElement.currentTime m)
               (HTMLMediaElement.volume m) (negb (HTMLMediaElement.paused m))).
  set (n1 := mkNode (listeners n) (__mediaController n) (Some m1)).
  assert (Hn1 : heap (with_media (target this) n m1 w) !! target this = Some n1).
  { unfold with_media; simpl. apply lookup_insert_eq. }
  destruct (onMediaKeydown_space this e k (with_media (target this) n m1 w) n1 m1
              Hk Hkey Ha Hn1 eq_refl) as [H2 _].
  rewrite H2. cbn [fst snd].
  split_and!; try reflexivity.
  - exact Hplay.
  - unfold get_media. rewrite Hn1. reflexivity.
  - unfold with_media; simpl. apply world_eq; try reflexivity. simpl.
    rewrite insert_insert_eq. apply insert_id. rewrite Hn. f_equal.
    destruct n as [ls c md]; simpl in *. subst md.
    destruct m as [t v p]; simpl. rewrite negb_involutive. reflexivity.
Qed.

Lemma space_twice_restores_witness :
  let space :=
    keydown {| key := " "; ctrlKey := false; metaKey := false; shiftKey := false |} in
  let once := onMediaKeydown first_controller space (focus 1 page_bound) in
  let twice := onMediaKeydown first_controller space (world_of once) in
  completion_of once = Return tt
  ∧ world_of once = play 1 (focus 1 page_bound)
  ∧ get_media 1 (world_of once) = Some (HTMLMediaElement.mk 100 0.5 false)
  ∧ event_of once = suppress space
  ∧ completion_of twice = Return tt
  ∧ world_of twice = focus 1 page_bound
  ∧ event_of twice = suppress space.
Proof.
  intros space.
  apply (space_twice_restores first_controller space
           {| key := " "; ctrlKey := false; metaKey := false; shiftKey := false |}
           (focus 1 page_bound)
           {| listeners := [mkListener "keydown" (mkCallback first_controller OnMediaKeydown)];
              __mediaController := None;
              media := Some (HTMLMediaElement.mk 100 0.5 true) |}
           (HTMLMediaElement.mk 100 0.5 true)); reflexivity.
Defined.

(** X14. The meta key counts as the ctrl key everywhere: reporting an
    event's meta key as its ctrl key changes neither magnitude nor what
    either listener does to the world, nor whether the target listener
    returns or throws. *)
Theorem meta_key_is_ctrl_key
    (this : MediaController) (k : KeyboardEvent) (e : Event) (w : world) :
  getTimeDelta this (meta_as_ctrl k) = getTimeDelta this k
  ∧ getVolumeDelta this (meta_as_ctrl k) = getVolumeDelta this k
  ∧ fst (onScopeKeydown this (with_keys (meta_as_ctrl k) e) w)
    = fst (onScopeKeydown this (with_keys k e) w)
  ∧ world_of (onMediaKeydown this (with_keys (meta_as_ctrl k) e) w)
    = world_of (onMediaKeydown this (with_keys k e) w)
  ∧ completion_of (onMediaKeydown this (with_keys (meta_as_ctrl k) e) w)
    = completion_of (onMediaKeydown this (with_keys k e) w).
Proof.
  assert (HT : getTimeDelta this (meta_as_ctrl k) = getTimeDelta this k).
  { unfold getTimeDelta, meta_as_ctrl; simpl. rewrite orb_false_r. reflexivity. }
  assert (HV : getVolumeDelta this (meta_as_ctrl k) = getVolumeDelta this k).
  { unfold getVolumeDelta, meta_as_ctrl; simpl. rewrite orb_false_r. reflexivity. }
  assert (HM : ∀ sw : completion bool * world,
    world_of (match sw with
              | (Throw msg, w') => (Throw msg, w', with_keys (meta_as_ctrl k) e)
              | (Return acted, w') =>
                  if acted then (Return tt, w', suppress (with_keys (meta_as_ctrl k) e))
                  else (Return tt, w', with_keys (meta_as_ctrl k) e)
              end)
    = world_of (match sw with
                | (Throw msg, w') => (Throw msg, w', with_keys k e)
                | (Return acted, w') =>
                    if acted then (Return tt, w', suppress (with_keys k e))
                    else (Return tt, w', with_keys k e)
                end)
    ∧ completion_of (match sw with
              | (Throw msg, w') => (Throw msg, w', with_keys (meta_as_ctrl k) e)
              | (Return acted, w') =>
                  if acted then (Return tt, w', suppress (with_keys (meta_as_ctrl k) e))
                  else (Return tt, w', with_keys (meta_as_ctrl k) e)
              end)
    = completion_of (match sw with
                | (Throw msg, w') => (Throw msg, w', with_keys k e)
                | (Return acted, w') =>
                    if acted then (Return tt, w', suppress (with_keys k e))
                    else (Return tt, w', with_keys k e)
                end)).
  { intros [[[|]|msg] w']; split; reflexivity. }
  assert (HB : world_of (onMediaKeydown this (with_keys (meta_as_ctrl k) e) w)
               = world_of (onMediaKeydown this (with_keys k e) w)
             ∧ completion_of (onMediaKeydown this (with_keys (meta_as_ctrl k) e) w)
               = completion_of (onMediaKeydown this (with_keys k e) w)).
  { unfold onMediaKeydown. cbn [ev_kind with_keys]. rewrite HT, HV.
    cbn [key meta_as_ctrl].
    destruct (bool_decide _); cbn [negb]; [|split; reflexivity].
    apply HM. }
  split_and!; [exact HT | exact HV | | apply HB | apply HB].
  unfold onScopeKeydown; simpl. rewrite orb_false_r.
  destruct (String.eqb _ _ && Bool.eqb _ _ && Bool.eqb _ _); reflexivity.
Qed.

(** ** An invariant of the scopes *)

Lemma dispose_controller_inv (c c' : MediaController) (w : world) (r : ref) :
  get_controller r (dispose c w) = Some c' → get_controller r w = Some c'.
Proof.
  unfold get_controller. rewrite dispose_lookup.
  destruct (heap w !! r) as [n|]; simpl; [|discriminate].
  rewrite dispose_node_controller. case_decide; [discriminate | auto].
Qed.

Lemma overwriting_controller_inv (this c : MediaController) (w : world) (r : ref) :
  get_controller r (overwriting this w) = Some c → get_controller r w = Some c.
Proof.
  unfold overwriting. destruct (get_controller (scope this) _).
  - intros H. apply dispose_controller_inv in H.
    change (get_controller r (listening this w) = Some c) in H.
    rewrite listening_controller in H. exact H.
  - rewrite listening_controller. auto.
Qed.

Lemma overwriting_next_cid (this : MediaController) (w : world) :
  next_cid (overwriting this w) = S (next_cid w).
Proof. unfold overwriting. destruct (get_controller _ _); reflexivity. Qed.

Lemma at_home_transfer (w w' : world) :
  (∀ r c, get_controller r w' = Some c → get_controller r w = Some c) →
  (next_cid w ≤ next_cid w')%nat →
  controllers_at_home w → controllers_at_home w'.
Proof.
  intros Hget Hle Hw r c Hc. apply Hget, Hw in Hc as [? ?]. split; [assumption | lia].
Qed.

Lemma constructor_at_home (sc : ref) (sel : selector)
    (opts : option IMediaControllerOptions) (w : world) :
  controllers_at_home w → controllers_at_home (snd (constructor sc sel opts w)).
Proof.
  intros Hw. destruct (resolve_target sel w) as [t|] eqn:Ht.
  - rewrite (constructor_resolved _ _ _ _ _ Ht). simpl.
    intros r c Hc.
    assert (Hn : next_cid (set_controller sc (new_controller sc t opts w)
                             (overwriting (new_controller sc t opts w) w))
                 = S (next_cid w)).
    { unfold set_controller, update_node; simpl. apply overwriting_next_cid. }
    rewrite Hn. destruct (decide (sc = r)) as [<-|Hne].
    + unfold get_controller, set_controller in Hc.
      rewrite update_node_lookup, decide_True in Hc by reflexivity.
      destruct (heap _ !! sc); simpl in Hc; [|discriminate].
      injection Hc as <-. simpl. split; [reflexivity | lia].
    + rewrite set_controller_get_ne in Hc by exact Hne.
      apply overwriting_controller_inv in Hc. apply Hw in Hc as [? ?].
      split; [assumption | lia].
  - destruct (constructor_unresolved sc sel opts w Ht) as (s & _ & _ & ->).
    exact Hw.
Qed.

Lemma onScopeKeydown_heap (c : MediaController) (e : Event) (w : world) :
  heap (fst (onScopeKeydown c e w)) = heap w
  ∧ next_cid (fst (onScopeKeydown c e w)) = next_cid w.
Proof.
  unfold onScopeKeydown. destruct (ev_kind e) as [k|]; [|auto].
  cbv zeta. destruct (String.eqb _ _ && Bool.eqb _ _ && Bool.eqb _ _); auto.
Qed.

(** X15. In every world reached by constructing and disposing
    controllers and by delivering events, an object's [__mediaController]
    is a controller whose scope is that object, and an instance created
    earlier: the constructor, [dispose] and both listeners keep this
    invariant. *)
Theorem controllers_stay_at_home
    (w : world) (sc : ref) (sel : selector) (opts : option IMediaControllerOptions)
    (c : MediaController) (e : Event) :
  controllers_at_home w →
  controllers_at_home (snd (constructor sc sel opts w))
  ∧ controllers_at_home (dispose c w)
  ∧ controllers_at_home (fst (onScopeKeydown c e w))
  ∧ controllers_at_home (world_of (onMediaKeydown c e w)).
Proof.
  intros Hw. split_and!.
  - apply constructor_at_home. exact Hw.
  - apply (at_home_transfer w); [|reflexivity|exact Hw].
    intros r c'. apply dispose_controller_inv.
  - destruct (onScopeKeydown_heap c e w) as [Hh Hn].
    apply (at_home_transfer w); [|rewrite Hn; reflexivity|exact Hw].
    intros r c'. unfold get_controller. rewrite Hh. auto.
  - destruct (onMediaKeydown_world c e w) as [Hf | [f Hf]]; rewrite Hf.
    + exact Hw.
    + apply (at_home_transfer w); [|reflexivity|exact Hw].
      intros r c'. unfold update_media.
      rewrite update_node_controller by reflexivity. auto.
Qed.

Lemma page_at_home : controllers_at_home page.
Proof.
  intros r c H. exfalso. unfold get_controller, page in H. simpl in H.
  destruct (decide (r = 0)) as [->|H0]; [discriminate H|].
  destruct (decide (r = 1)) as [->|H1]; [discriminate H|].
  destruct (decide (r = 2)) as [->|H2]; [discriminate H|].
  rewrite !lookup_insert_ne, lookup_empty in H by congruence.
  discriminate H.
Qed.

Lemma controllers_stay_at_home_witness :
  controllers_at_home (snd (constructor 0 (Selector "video") None page))
  ∧ controllers_at_home (dispose first_controller page)
  ∧ controllers_at_home (fst (onScopeKeydown first_controller (keydown ctrl_e) page))
  ∧ controllers_at_home (world_of (onMediaKeydown first_controller (keydown ctrl_e) page)).
Proof.
  apply (controllers_stay_at_home page 0 (Selector "video") None first_controller
           (keydown ctrl_e)).
  exact page_at_home.
Defined.

(** ** The focus shortcut, then a key *)



